(** * IODATA utility module: a shallow embedding of [iodata/utils.py]

    The Python module is embedded function by function.

    - Python exceptions are values of [exn]; a call that may raise returns a
      [result].  Methods of a mutable object return the object's new state
      next to their outcome, so that a mutation made before an exception is
      raised stays visible.
    - Python [int] is [Z]; Python [str] is [string], and [str.lower] is the
      ASCII lower-casing (the keys of [STRTOBOOL] are ASCII, and no other
      code point lower-cases to one of their characters).
    - Python [float] is a type [F] with the operations of the class
      [Scalar]; the development is parametric in it, so every theorem holds
      for binary64 arithmetic ([float_Scalar], used to run the code) as well
      as for exact real arithmetic.
    - numpy and scipy are not part of the repository.  Their elementary
      routines ([dot], [transpose], [linalg.norm], [cross], [linalg.det] on
      the shapes that reach them) are written out from their definitions;
      the eigen-solver [scipy.linalg.eigh] is a parameter. *)

From Stdlib Require Import ZArith Lia PrimFloat Ascii String.
From stdpp Require Import base option list gmap strings pretty.

(** ** Exceptions and results *)

(** The exception classes met in the module.  [LinAlgError] is numpy's
    subclass of [ValueError]; [FileFormatError] carries its message. *)
Inductive exn : Type :=
  | ValueError
  | TypeError
  | IndexError
  | AttributeError
  | StopIteration
  | OSError
  | LinAlgError
  | FileFormatError (msg : string).

Inductive result (A : Type) : Type :=
  | Ok (a : A)
  | Raise (e : exn).
Arguments Ok {A} a.
Arguments Raise {A} e.

(** Sequencing: the first exception raised ends the computation. *)
Definition bind {A B} (m : result A) (f : A → result B) : result B :=
  match m with
  | Ok a => f a
  | Raise e => Raise e
  end.

Notation "x <- m ; k" := (bind m (λ x : _, k))
  (at level 20, m at level 100, k at level 200, only parsing).
Notation "' p <- m ; k" := (bind m (λ x : _, match x with p => k end))
  (at level 20, p pattern, m at level 100, k at level 200, only parsing).

(** [o or_raise e]: the value of an optional, or the exception [e]. *)
Definition or_raise {A} (o : option A) (e : exn) : result A :=
  match o with
  | Some a => Ok a
  | None => Raise e
  end.

(** ** Floating-point scalars *)

Class Scalar (F : Type) : Type := {
  fzero : F;
  fadd : F → F → F;
  fsub : F → F → F;
  fmul : F → F → F;
  fopp : F → F;
  fsqrt : F → F;
  fltb : F → F → bool;
  feqb : F → F → bool
}.

Declare Scope F_scope.
Delimit Scope F_scope with F.
Notation "x + y" := (fadd x y) : F_scope.
Notation "x - y" := (fsub x y) : F_scope.
Notation "x * y" := (fmul x y) : F_scope.
Notation "- x" := (fopp x) : F_scope.
Notation "x <? y" := (fltb x y) : F_scope.
Notation "x >? y" := (fltb y x) : F_scope.

(** IEEE 754 binary64, the arithmetic of Python's [float]. *)
#[global] Instance float_Scalar : Scalar float := {|
  fzero := 0%float;
  fadd := PrimFloat.add;
  fsub := PrimFloat.sub;
  fmul := PrimFloat.mul;
  fopp := PrimFloat.opp;
  fsqrt := PrimFloat.sqrt;
  fltb := PrimFloat.ltb;
  feqb := PrimFloat.eqb
|}.

(** Not a number: the only value that differs from itself. *)
Definition fisnan {F} `{!Scalar F} (x : F) : bool := negb (feqb x x).

(** ** Python lists used as stacks *)

(** [list.pop()]: the last element and the list without it. *)
Definition list_pop {A} (l : list A) : option (A * list A) :=
  match reverse l with
  | [] => None
  | x :: r => Some (x, reverse r)
  end.

(** Truth value of a list: non-empty. *)
Definition truthy {A} (l : list A) : bool :=
  match l with
  | [] => false
  | _ :: _ => true
  end.

(** ** [LineIterator] *)

Module LineIterator.

(** An open text file: the lines not read yet, and whether it was closed. *)
Record file : Type := File {
  lines : list string;
  closed : bool
}.

(** [next(fh)] on a file object. *)
Definition file_next (f : file) : result string * file :=
  if closed f then (Raise ValueError, f)
  else match lines f with
       | [] => (Raise StopIteration, f)
       | l :: ls => (Ok l, File ls false)
       end.

(** The attributes of a [LineIterator] object. *)
Record t : Type := Build {
  filename : string;
  fh : option file;
  lineno : Z;
  stack : list string
}.

Definition set_fh (h : option file) (self : t) : t :=
  Build (filename self) h (lineno self) (stack self).
Definition set_lineno (n : Z) (self : t) : t :=
  Build (filename self) (fh self) n (stack self).
Definition set_stack (s : list string) (self : t) : t :=
  Build (filename self) (fh self) (lineno self) s.

(** [__init__] *)
Definition init (fname : string) : t := Build fname None 0 [].

(** [__enter__]; [fs] is the file system [open] reads from. *)
Definition enter (fs : string → option (list string)) (self : t)
  : result unit * t :=
  match fs (filename self) with
  | Some ls => (Ok tt, set_fh (Some (File ls false)) self)
  | None => (Raise OSError, self)
  end.

(** [__exit__] *)
Definition exit (self : t) : result unit * t :=
  match fh self with
  | Some f => (Ok tt, set_fh (Some (File (lines f) true)) self)
  | None => (Raise AttributeError, self)
  end.

(** [__iter__] *)
Definition iter (self : t) : t := self.

(** [__next__]: the counter is increased first, whatever follows. *)
Definition next (self : t) : result string * t :=
  let self := set_lineno (lineno self + 1) self in
  if truthy (stack self) then
    match list_pop (stack self) with
    | Some (line, rest) => (Ok line, set_stack rest self)
    | None => (Raise IndexError, self)
    end
  else
    match fh self with
    | Some f => let '(r, f') := file_next f in (r, set_fh (Some f') self)
    | None => (Raise TypeError, self)
    end.

(** The text [f"{self.filename}:{self.lineno} {msg}"]. *)
Definition tagged (self : t) (msg : string) : string :=
  filename self +:+ ":" +:+ pretty (lineno self) +:+ " " +:+ msg.

(** [error] *)
Definition error (msg : string) (self : t) : result unit * t :=
  (Raise (FileFormatError (tagged self msg)), self).

(** [warn]: returns the text of the [FileFormatWarning] it emits. *)
Definition warn (msg : string) (self : t) : string * t :=
  (tagged self msg, self).

(** [back] *)
Definition back (line : string) (self : t) : result unit * t :=
  let self := set_stack (stack self ++ [line]) self in
  let self := set_lineno (lineno self - 1) self in
  (Ok tt, self).

(** The operations a client can apply to a cursor, and a run of them. *)
Inductive op : Type :=
  | Enter
  | Exit
  | Iter
  | Next
  | Error (msg : string)
  | Warn (msg : string)
  | Back (line : string).

Definition exec (fs : string → option (list string)) (o : op) (self : t) : t :=
  match o with
  | Enter => snd (enter fs self)
  | Exit => snd (exit self)
  | Iter => iter self
  | Next => snd (next self)
  | Error msg => snd (error msg self)
  | Warn msg => snd (warn msg self)
  | Back line => snd (back line self)
  end.

Definition run (fs : string → option (list string)) (os : list op) (self : t)
  : t :=
  foldl (λ s o, exec fs o s) self os.

(** The change of [lineno] each operation makes. *)
Definition delta (o : op) : Z :=
  match o with
  | Next => 1
  | Back _ => -1
  | _ => 0
  end.

(** A client that calls [__next__] [k] times in a row and keeps every
    outcome. *)
Fixpoint nexts (k : nat) (self : t) : list (result string) * t :=
  match k with
  | O => ([], self)
  | S k' =>
      let '(r, self1) := next self in
      let '(rs, self2) := nexts k' self1 in
      (r :: rs, self2)
  end.

(** A client that calls [back] on each line of a list in turn. *)
Definition backs (ls : list string) (self : t) : t :=
  foldl (λ s l, (back l s).2) self ls.

(** The cursor inside [with LineIterator(fname) as lit:], on a file that
    holds the lines [ls]. *)
Definition opened (fname : string) (ls : list string) : t :=
  Build fname (Some (File ls false)) 0 [].

Definition is_next_or_back (o : op) : bool :=
  match o with
  | Next | Back _ => true
  | _ => false
  end.

(** The invariant behind the line numbers, on a cursor that reads the file
    [ls]: the file handle is open on a suffix of [ls], and the counter plus
    the number of pushed-back lines is at least the number of lines taken
    from the file, and equal to it until the end of the file is hit. *)
Definition tracks (ls : list string) (self : t) : Prop :=
  ∃ pre rem,
    ls = pre ++ rem ∧
    fh self = Some (File rem false) ∧
    (Z.of_nat (length pre) ≤ lineno self + Z.of_nat (length (stack self)))%Z ∧
    (rem ≠ [] →
     (lineno self + Z.of_nat (length (stack self)))%Z = Z.of_nat (length pre)).

End LineIterator.

(** ** Arrays *)

(** A numpy array of any rank: its shape and its elements in row-major
    order. *)
Record ndarray (V : Type) : Type := NDArray {
  shape : list nat;
  flat : list V
}.
Arguments NDArray {V} shape flat.
Arguments shape {V} _.
Arguments flat {V} _.

(** numpy's reading of an index [i] along an axis of length [n]: negative
    indices count from the end; [None] when out of bounds. *)
Definition norm_index (n : nat) (i : Z) : option nat :=
  let len := Z.of_nat n in
  if decide (0 ≤ i < len)%Z then Some (Z.to_nat i)
  else if decide (- len ≤ i < 0)%Z then Some (Z.to_nat (i + len))
  else None.

(** ** [Cube] *)

(** Modelled from the spec: [validate_shape] of [iodata/attrutils.py], a file
    of the repository that is not among the sources.  The spec has the
    shapes checked when the record is built and a violation rejected with a
    type-mismatch error (Python's [TypeError]).  Each requirement is a fixed
    length or [None] for any length; the value's rank must be the number of
    requirements. *)
Definition shape_matches (req : list (option nat)) (shp : list nat) : bool :=
  bool_decide (length req = length shp) &&
  forallb (λ rd, match rd.1 with
                 | Some n => bool_decide (n = rd.2)
                 | None => true
                 end) (zip req shp).

Definition validate_shape {V} (req : list (option nat)) (value : ndarray V)
  : result unit :=
  if shape_matches req (shape value) then Ok tt else Raise TypeError.

Record Cube (V : Type) : Type := MkCube {
  origin : ndarray V;
  axes : ndarray V;
  data : ndarray V
}.
Arguments MkCube {V} origin axes data.
Arguments origin {V} _.
Arguments axes {V} _.
Arguments data {V} _.

(** The constructor attrs generates: the fields are stored, then each
    field's validator runs, in the order of the fields. *)
Definition Cube_init {V} (o a d : ndarray V) : result (Cube V) :=
  _ <- validate_shape [Some 3] o;
  _ <- validate_shape [Some 3; Some 3] a;
  _ <- validate_shape [None; None; None] d;
  Ok (MkCube o a d).

(** The shape constraints of the three fields, as the spec states them. *)
Definition Cube_shapes_ok {V} (o a d : ndarray V) : Prop :=
  shape o = [3] ∧ shape a = [3; 3] ∧ length (shape d) = 3.

(** The property [Cube.shape]. *)
Definition Cube_shape {V} (c : Cube V) : list nat := shape (data c).

(** ** [set_four_index_element] *)

(** A four-index object: a rank-4 array, [dims] its shape. *)
Record array4 (V : Type) : Type := Array4 {
  dims : nat * nat * nat * nat;
  elems : list V
}.
Arguments Array4 {V} dims elems.
Arguments dims {V} _.
Arguments elems {V} _.

(** Row-major position of the element [k0, k1, k2, k3]. *)
Definition offset4 (d : nat * nat * nat * nat) (k0 k1 k2 k3 : nat) : nat :=
  let '(_, d1, d2, d3) := d in
  ((k0 * d1 + k1) * d2 + k2) * d3 + k3.

(** The four indices of an access, each read by [norm_index]; an index out
    of bounds raises [IndexError]. *)
Definition index4 (d : nat * nat * nat * nat) (i0 i1 i2 i3 : Z)
  : result nat :=
  let '(d0, d1, d2, d3) := d in
  k0 <- or_raise (norm_index d0 i0) IndexError;
  k1 <- or_raise (norm_index d1 i1) IndexError;
  k2 <- or_raise (norm_index d2 i2) IndexError;
  k3 <- or_raise (norm_index d3 i3) IndexError;
  Ok (offset4 d k0 k1 k2 k3).

(** [a[i0, i1, i2, i3]] *)
Definition getitem4 {V} (a : array4 V) (i0 i1 i2 i3 : Z) : result V :=
  k <- index4 (dims a) i0 i1 i2 i3;
  or_raise (elems a !! k) IndexError.

(** [a[i0, i1, i2, i3] = value]: in place, so the new array is returned. *)
Definition setitem4 {V} (a : array4 V) (i0 i1 i2 i3 : Z) (value : V)
  : result (array4 V) :=
  k <- index4 (dims a) i0 i1 i2 i3;
  Ok (Array4 (dims a) (<[k := value]> (elems a))).

Definition set_four_index_element {V} (four_index_object : array4 V)
    (i0 i1 i2 i3 : Z) (value : V) : result (array4 V) :=
  a <- setitem4 four_index_object i0 i1 i2 i3 value;
  a <- setitem4 a i1 i0 i3 i2 value;
  a <- setitem4 a i2 i1 i0 i3 value;
  a <- setitem4 a i0 i3 i2 i1 value;
  a <- setitem4 a i2 i3 i0 i1 value;
  a <- setitem4 a i3 i2 i1 i0 value;
  a <- setitem4 a i1 i2 i3 i0 value;
  setitem4 a i3 i0 i1 i2 value.

(** The eight index tuples the function writes. *)
Definition sym8 (i0 i1 i2 i3 : Z) : list (Z * Z * Z * Z) :=
  [ (i0, i1, i2, i3); (i1, i0, i3, i2); (i2, i1, i0, i3); (i0, i3, i2, i1);
    (i2, i3, i0, i1); (i3, i2, i1, i0); (i1, i2, i3, i0); (i3, i0, i1, i2) ].

(** An index, and four of them, within [0, n). *)
Definition in_range (n : nat) (i : Z) : Prop := (0 ≤ i < Z.of_nat n)%Z.
Definition range4 (n : nat) (i : Z * Z * Z * Z) : Prop :=
  let '(i0, i1, i2, i3) := i in
  in_range n i0 ∧ in_range n i1 ∧ in_range n i2 ∧ in_range n i3.

(** A well-formed array of shape [(n, n, n, n)]. *)
Definition cubic4 {V} (n : nat) (a : array4 V) : Prop :=
  dims a = (n, n, n, n) ∧ length (elems a) = n * n * n * n.

(** ** Numerical helpers *)

(** numpy accepts an index [i] on an axis of length [n] when
    [-n ≤ i < n]; four of them. *)
Definition valid_index (n : nat) (i : Z) : Prop :=
  (- Z.of_nat n ≤ i < Z.of_nat n)%Z.
Definition valid4 (n : nat) (i : Z * Z * Z * Z) : Prop :=
  let '(i0, i1, i2, i3) := i in
  valid_index n i0 ∧ valid_index n i1 ∧ valid_index n i2 ∧ valid_index n i3.

(** The index from the start that an accepted index stands for. *)
Definition wrap_index (n : nat) (i : Z) : Z :=
  if decide (i < 0)%Z then (i + Z.of_nat n)%Z else i.

(** The position in the buffer an accepted index tuple designates. *)
Definition off4 (n : nat) (i : Z * Z * Z * Z) : nat :=
  let '(i0, i1, i2, i3) := i in
  offset4 (n, n, n, n) (Z.to_nat (wrap_index n i0)) (Z.to_nat (wrap_index n i1))
    (Z.to_nat (wrap_index n i2)) (Z.to_nat (wrap_index n i3)).

(** One value stored at each position of a list, in turn. *)
Definition inserts {V} (ks : list nat) (v : V) (l : list V) : list V :=
  foldl (λ l k, <[k := v]> l) l ks.

Section Numerics.
Context {F : Type} `{!Scalar F}.
Local Open Scope F_scope.

(** Sum of the elements, left to right. *)
Definition fsum (l : list F) : F :=
  match l with
  | [] => fzero
  | x :: xs => foldl fadd x xs
  end.

Definition vdot (u v : list F) : F := fsum (zip_with fmul u v).

(** [numpy.linalg.norm] with its default arguments: the 2-norm of the
    flattened array. *)
Definition linalg_norm (x : list F) : F := fsqrt (vdot x x).

(** [numpy.cross] of two rows of one matrix (so of equal length): the vector
    product in dimension 3, its z-component in dimension 2, [ValueError] in
    any other dimension. *)
Definition cross (a b : list F) : result (list F) :=
  match a, b with
  | [a0; a1; a2], [b0; b1; b2] =>
      Ok [a1 * b2 - a2 * b1; a2 * b0 - a0 * b2; a0 * b1 - a1 * b0]
  | [a0; a1], [b0; b1] => Ok [a0 * b1 - a1 * b0]
  | _, _ => Raise ValueError
  end.

(** [numpy.linalg.det] of a matrix with three rows, the only ones [volume]
    passes: the determinant when the matrix is square, [LinAlgError]
    otherwise. *)
Definition linalg_det (m : list (list F)) : result F :=
  match m with
  | [[a0; a1; a2]; [b0; b1; b2]; [c0; c1; c2]] =>
      Ok (a0 * (b1 * c2 - b2 * c1) - a1 * (b0 * c2 - b2 * c0)
          + a2 * (b0 * c1 - b1 * c0))
  | _ => Raise LinAlgError
  end.

(** The argument of [volume]: an array of rank 1 or of rank 2 (a list of
    rows). *)
Inductive cellvecs_t : Type :=
  | Vec (v : list F)
  | Mat (rows : list (list F)).

Definition ndim (a : cellvecs_t) : nat :=
  match a with
  | Vec _ => 1
  | Mat _ => 2
  end.

(** [a.shape[0]] *)
Definition shape0 (a : cellvecs_t) : nat :=
  match a with
  | Vec v => length v
  | Mat rows => length rows
  end.

Definition ravel (a : cellvecs_t) : list F :=
  match a with
  | Vec v => v
  | Mat rows => concat rows
  end.

Definition rows_of (a : cellvecs_t) : list (list F) :=
  match a with
  | Vec v => (λ x, [x]) <$> v
  | Mat rows => rows
  end.

Definition volume (cellvecs : cellvecs_t) : result F :=
  let nvecs := shape0 cellvecs in
  if bool_decide (ndim cellvecs = 1) || bool_decide (nvecs = 1) then
    Ok (linalg_norm (ravel cellvecs))
  else if bool_decide (nvecs = 2) then
    r0 <- or_raise (rows_of cellvecs !! 0) IndexError;
    r1 <- or_raise (rows_of cellvecs !! 1) IndexError;
    c <- cross r0 r1;
    Ok (linalg_norm c)
  else if bool_decide (nvecs = 3) then
    linalg_det (rows_of cellvecs)
  else Raise ValueError.

(** *** Matrices, as lists of rows *)

(** A list of [r] rows of length [c] stands for the array of shape (r, c)
    when [r] and [c] are positive, and the empty list for the array of
    shape (0, 0).  A list cannot tell the other empty shapes apart ((0, c),
    and (r, 0) once transposed), so the definitions below are those of
    numpy on the former shapes only, and statements about them keep to
    these. *)

Definition ncols (m : list (list F)) : nat :=
  match m with
  | [] => 0
  | r :: _ => length r
  end.

(** [m[:, j]] *)
Definition col (j : nat) (m : list (list F)) : list F :=
  (λ r, default fzero (r !! j)) <$> m.

(** [m.T] *)
Definition transpose (m : list (list F)) : list (list F) :=
  (λ j, col j m) <$> seq 0 (ncols m).

(** The matrix product: rows of [a] against columns of [b]. *)
Definition matmul (a b : list (list F)) : list (list F) :=
  (λ r, (λ j, vdot r (col j b)) <$> seq 0 (ncols b)) <$> a.

(** [numpy.dot] of two matrices; [ValueError] when the shapes are not
    aligned. *)
Definition dot (a b : list (list F)) : result (list (list F)) :=
  if bool_decide (ncols a = length b) then Ok (matmul a b)
  else Raise ValueError.

(** numpy's [minimum] and [maximum] of two numbers: a NaN wins. *)
Definition fmin (m y : F) : F := if (m <? y) || fisnan m then m else y.
Definition fmax (m y : F) : F := if (m >? y) || fisnan m then m else y.

(** [x.min()] and [x.max()] of a rank-1 array; [ValueError] when it is
    empty. *)
Definition amin (x : list F) : result F :=
  match x with
  | [] => Raise ValueError
  | x0 :: xs => Ok (foldl fmin x0 xs)
  end.
Definition amax (x : list F) : result F :=
  match x with
  | [] => Raise ValueError
  | x0 :: xs => Ok (foldl fmax x0 xs)
  end.

(** *** [derive_naturals] and [check_dm] *)

Section Eigh.

(** [scipy.linalg.eigh a b]: eigenvalues and eigenvectors (as columns) of
    the generalized problem [a v = w b v], or an exception. *)
Variable eigh : list (list F) → list (list F) → result (list F * list (list F)).

Definition derive_naturals (dm overlap : list (list F))
  : result (list (list F) * list F) :=
  ds <- dot dm overlap;
  sds <- dot (transpose overlap) ds;
  '(evals, evecs) <- eigh sds overlap;
  let coeffs := take (ncols overlap) <$> evecs in
  let occs := evals in
  Ok (coeffs, occs).

Definition check_dm (dm overlap : list (list F)) (eps occ_max : F)
  : result unit :=
  '(_, occupations) <- derive_naturals dm overlap;
  mn <- amin occupations;
  if mn <? - eps then Raise ValueError
  else
    mx <- amax occupations;
    if mx >? occ_max + eps then Raise ValueError
    else Ok tt.

End Eigh.

(** A matrix of [n] rows and [n] columns, and one of [r] rows and [c]
    columns. *)
Definition square (n : nat) (m : list (list F)) : Prop :=
  length m = n ∧ Forall (λ r, length r = n) m.

Definition shaped (r c : nat) (m : list (list F)) : Prop :=
  length m = r ∧ Forall (λ row, length row = c) m.

(** A solver for one problem, used to run the functions: for the density
    matrix diag(2, 1) and the unit overlap matrix it returns the eigenvalues
    1 and 2 and the unit vectors e2 and e1 as columns. *)
Definition eigh_diag2 (a b : list (list float))
  : result (list float * list (list float)) :=
  Ok ([1; 2]%float, [[0; 1]; [1; 0]]%float).

(** A solver that fails as [scipy.linalg.eigh] does on an overlap matrix
    that is not positive definite, used to run the functions. *)
Definition eigh_not_pd (a b : list (list F))
  : result (list F * list (list F)) :=
  Raise LinAlgError.

(** The numbers of [xs] are ordinary and compare consistently: none is a
    NaN, and on them [<] is asymmetric and its negation is transitive, as
    it is on any binary64 numbers that are not NaN. *)
Definition ordered_on (xs : list F) : Prop :=
  (∀ x, x ∈ xs → fisnan x = false) ∧
  (∀ x y, x ∈ xs → y ∈ xs → (x <? y) = true → (y <? x) = false) ∧
  (∀ x y z, x ∈ xs → y ∈ xs → z ∈ xs →
     (x <? y) = false → (y <? z) = false → (x <? z) = false).

(** The bounds [check_dm] puts on one occupation. *)
Definition occ_in_range (eps occ_max o : F) : Prop :=
  (o <? - eps) = false ∧ (o >? occ_max + eps) = false.

(** ** Density matrices of the container *)

(** Modelled from the spec: the container [IOData] and its accessors
    [get_dm_full] and [get_dm_spin] ([iodata/iodata.py], a file of the
    repository that is not among the sources; only its tests are).  Of the
    container's optional attributes only those the accessors read are kept:
    the stored density matrices and the orbitals of each spin channel. *)
Record orbitals : Type := Orbitals {
  orb_coeffs : list (list F);
  orb_occs : list F
}.

Record IOData : Type := MkIOData {
  dm_full_scf : option (list (list F));
  dm_spin_scf : option (list (list F));
  orb_alpha : option orbitals;
  orb_beta : option orbitals
}.

(** [IOData()]: no attribute is set. *)
Definition IOData_empty : IOData := MkIOData None None None None.

(** Modelled from the spec: [DM[p,q] = sum_i occ_i * C[p,i] * C[q,i]]. *)
Definition dm_from_orbs (o : orbitals) : list (list F) :=
  (λ cp, (λ cq, vdot (orb_occs o) (zip_with fmul cp cq)) <$> orb_coeffs o)
    <$> orb_coeffs o.

Definition mat_zip (f : F → F → F) (a b : list (list F)) : list (list F) :=
  zip_with (zip_with f) a b.

(** Modelled from the spec: the stored matrix when there is one; else the
    sum over the spin channels of the orbitals (alpha counted twice when
    there is no beta channel); else no data. *)
Definition get_dm_full (m : IOData) : option (list (list F)) :=
  match dm_full_scf m with
  | Some d => Some d
  | None =>
      match orb_alpha m, orb_beta m with
      | Some a, Some b => Some (mat_zip fadd (dm_from_orbs a) (dm_from_orbs b))
      | Some a, None => Some (mat_zip fadd (dm_from_orbs a) (dm_from_orbs a))
      | None, _ => None
      end
  end.

(** Modelled from the spec: the stored matrix when there is one; else alpha
    minus beta when both channels are there; else no data. *)
Definition get_dm_spin (m : IOData) : option (list (list F)) :=
  match dm_spin_scf m with
  | Some d => Some d
  | None =>
      match orb_alpha m, orb_beta m with
      | Some a, Some b => Some (mat_zip fsub (dm_from_orbs a) (dm_from_orbs b))
      | _, _ => None
      end
  end.

End Numerics.

(** ** [strtobool] *)

Definition lower_ascii (c : ascii) : ascii :=
  let n := nat_of_ascii c in
  if (65 <=? n)%nat && (n <=? 90)%nat then ascii_of_nat (n + 32) else c.

(** [str.lower] *)
Fixpoint lower (s : string) : string :=
  match s with
  | EmptyString => EmptyString
  | String c s' => String (lower_ascii c) (lower s')
  end.

Definition STRTOBOOL : gmap string bool :=
  list_to_map
    [ ("y", true); ("yes", true); ("t", true); ("true", true); ("on", true);
      ("1", true);
      ("n", false); ("no", false); ("f", false); ("false", false);
      ("off", false); ("0", false) ].

Definition strtobool (value : string) : result bool :=
  let result := STRTOBOOL !! lower value in
  match result with
  | None => Raise ValueError
  | Some b => Ok b
  end.

(** The two halves of the table, as the sets of their keys. *)
Definition truthy_tokens : list string := ["y"; "yes"; "t"; "true"; "on"; "1"].
Definition falsy_tokens : list string := ["n"; "no"; "f"; "false"; "off"; "0"].

(** * Properties *)

(** ** The line cursor *)

Section LineIteratorFacts.
Import LineIterator.

Lemma list_pop_snoc {A} (l : list A) (x : A) : list_pop (l ++ [x]) = Some (x, l).
Proof.
  unfold list_pop. rewrite reverse_snoc. by rewrite reverse_involutive.
Qed.

Lemma truthy_snoc {A} (l : list A) (x : A) : truthy (l ++ [x]) = true.
Proof. by destruct l. Qed.

Lemma list_pop_nil_iff {A} (l : list A) : list_pop l = None ↔ truthy l = false.
Proof.
  destruct l as [|y l] using rev_ind.
  - done.
  - rewrite list_pop_snoc, truthy_snoc. split; discriminate.
Qed.

(** C5: for every cursor state (open or not) and every line, [back line]
    returns normally, and the [__next__] call that follows returns exactly
    that line and leaves the cursor as it was before [back]: same counter,
    same push-back stack, same file handle. *)
Theorem back_then_next (self : t) (line : string) :
  let self1 := (back line self).2 in
  (back line self).1 = Ok tt ∧
  (next self1).1 = Ok line ∧
  lineno (next self1).2 = lineno self ∧
  stack (next self1).2 = stack self ∧
  (next self1).2 = self.
Proof.
  destruct self as [fname h n st]. cbn -[Z.add Z.sub].
  unfold next. cbn -[Z.add Z.sub].
  rewrite truthy_snoc, list_pop_snoc. cbn -[Z.add Z.sub].
  unfold set_stack, set_lineno. cbn -[Z.add Z.sub].
  replace (n - 1 + 1)%Z with n by lia.
  done.
Qed.

(** C7, as the claim states it, fails: on a fresh cursor, whose counter is
    0, [back] brings the counter to -1. *)
Lemma back_decreases_lineno :
  lineno (init "f") = 0%Z ∧
  lineno (back "x" (init "f")).2 = (-1)%Z ∧
  (lineno (back "x" (init "f")).2 < lineno (init "f"))%Z.
Proof. done. Qed.

Lemma lineno_exec fs (o : op) (self : t) :
  lineno (exec fs o self) = (lineno self + delta o)%Z.
Proof.
  destruct self as [fname h n st], o;
    unfold exec, enter, exit, next, error, warn, back;
    cbn -[Z.add Z.sub]; try lia.
  - destruct (fs fname); cbn; lia.
  - destruct h; cbn; lia.
  - destruct (truthy st).
    + destruct (list_pop st) as [[l r]|]; done.
    + destruct h as [f|]; [|done].
      unfold file_next. destruct (closed f); [done|].
      by destruct (lines f).
Qed.

(** C7, amended: the counter starts at 0; [__next__] adds one to it (also
    when it raises), [back] takes one from it, and [__enter__], [__exit__],
    [__iter__], [error] and [warn] leave it alone.  So after any run of operations the
    counter has changed by the number of [__next__] calls minus the number
    of [back] calls, and only [back] ever decreases it. *)
Theorem lineno_counts fs :
  (∀ fname, lineno (init fname) = 0%Z) ∧
  (∀ o self, lineno (exec fs o self) = (lineno self + delta o)%Z) ∧
  (∀ o self, match o with
             | Back _ => lineno (exec fs o self) = (lineno self - 1)%Z
             | _ => (lineno self ≤ lineno (exec fs o self))%Z
             end) ∧
  (∀ os self,
     lineno (run fs os self) = (lineno self + foldr Z.add 0%Z (delta <$> os))%Z).
Proof.
  split_and!.
  - done.
  - apply lineno_exec.
  - intros o self. pose proof (lineno_exec fs o self) as E.
    destruct o; cbn [delta] in E; lia.
  - intros os. induction os as [|o os IH]; intros self; cbn -[Z.add].
    + lia.
    + unfold run in IH. rewrite IH, lineno_exec. lia.
Qed.

End LineIteratorFacts.

(** ** The cube record *)

Section CubeFacts.
Context {V : Type}.

Ltac shape_cases :=
  unfold shape_matches; cbn;
  rewrite ?andb_true_r, ?andb_true_iff, ?bool_decide_eq_true;
  cbn; intuition congruence.

Lemma shape_matches_vec3 (s : list nat) :
  shape_matches [Some 3] s = true ↔ s = [3].
Proof. destruct s as [|d [|? ?]]; shape_cases. Qed.

Lemma shape_matches_mat33 (s : list nat) :
  shape_matches [Some 3; Some 3] s = true ↔ s = [3; 3].
Proof. destruct s as [|d [|e [|? ?]]]; shape_cases. Qed.

Lemma shape_matches_rank3 (s : list nat) :
  shape_matches [None; None; None] s = true ↔ length s = 3.
Proof. destruct s as [|d [|e [|f [|? ?]]]]; shape_cases. Qed.

(** C8: building a [Cube] succeeds exactly when [origin] has shape (3,),
    [axes] has shape (3, 3) and [data] has rank 3; any other arguments are
    rejected with [TypeError]; and the fields of a cube that was built have
    these shapes. *)
Theorem Cube_init_shapes (o a d : ndarray V) :
  (Cube_init o a d = Ok (MkCube o a d) ↔ Cube_shapes_ok o a d) ∧
  (Cube_init o a d = Raise TypeError ↔ ¬ Cube_shapes_ok o a d) ∧
  (∀ c, Cube_init o a d = Ok c →
        c = MkCube o a d ∧
        shape (origin c) = [3] ∧ shape (axes c) = [3; 3] ∧
        length (shape (data c)) = 3).
Proof.
  unfold Cube_shapes_ok, Cube_init, validate_shape.
  pose proof (shape_matches_vec3 (shape o)) as Ho.
  pose proof (shape_matches_mat33 (shape a)) as Ha.
  pose proof (shape_matches_rank3 (shape d)) as Hd.
  destruct (shape_matches [Some 3] (shape o));
    destruct (shape_matches [Some 3; Some 3] (shape a));
    destruct (shape_matches [None; None; None] (shape d)); cbn;
    (split_and!; [| | intros c [= <-]; cbn]); intuition congruence.
Qed.

End CubeFacts.

(** ** The four-index object *)

Section FourIndexFacts.
Context {V : Type}.
Implicit Types (a : array4 V) (v : V) (n : nat).

Lemma norm_index_in_range n (i : Z) :
  in_range n i → norm_index n i = Some (Z.to_nat i).
Proof. unfold in_range, norm_index. intros. cbn. by rewrite decide_True. Qed.

Lemma index4_in_range n (i0 i1 i2 i3 : Z) :
  range4 n (i0, i1, i2, i3) →
  index4 (n, n, n, n) i0 i1 i2 i3 =
    Ok (offset4 (n, n, n, n) (Z.to_nat i0) (Z.to_nat i1) (Z.to_nat i2)
          (Z.to_nat i3)).
Proof.
  intros (H0 & H1 & H2 & H3). unfold index4.
  by rewrite !norm_index_in_range.
Qed.

Lemma digits_inj (n q r q' r' : nat) :
  r < n → r' < n → q * n + r = q' * n + r' → q = q' ∧ r = r'.
Proof.
  intros Hr Hr' E.
  assert (q = q') as ->; [|lia].
  destruct (Nat.lt_trichotomy q q') as [L | [-> | L]]; [|done|]; exfalso.
  - assert ((q + 1) * n ≤ q' * n) by (apply Nat.mul_le_mono_r; lia). lia.
  - assert ((q' + 1) * n ≤ q * n) by (apply Nat.mul_le_mono_r; lia). lia.
Qed.

Lemma offset4_inj n (k0 k1 k2 k3 j0 j1 j2 j3 : nat) :
  k1 < n → k2 < n → k3 < n → j1 < n → j2 < n → j3 < n →
  offset4 (n, n, n, n) k0 k1 k2 k3 = offset4 (n, n, n, n) j0 j1 j2 j3 →
  k0 = j0 ∧ k1 = j1 ∧ k2 = j2 ∧ k3 = j3.
Proof.
  unfold offset4. intros ? ? ? ? ? ? E.
  apply digits_inj in E as [E ->]; [|done..].
  apply digits_inj in E as [E ->]; [|done..].
  apply digits_inj in E as [-> ->]; done.
Qed.

Lemma offset4_lt n (k0 k1 k2 k3 : nat) :
  k0 < n → k1 < n → k2 < n → k3 < n →
  offset4 (n, n, n, n) k0 k1 k2 k3 < n * n * n * n.
Proof.
  unfold offset4. intros.
  assert (k0 * n + k1 < n * n) by nia.
  assert ((k0 * n + k1) * n + k2 < n * n * n) by nia.
  nia.
Qed.

(** One assignment: it succeeds, keeps the shape, stores the value at the
    index, and leaves every other element as it was. *)
Lemma setitem4_spec n a (i0 i1 i2 i3 : Z) v :
  cubic4 n a → range4 n (i0, i1, i2, i3) →
  ∃ a', setitem4 a i0 i1 i2 i3 v = Ok a' ∧ cubic4 n a' ∧
    ∀ j0 j1 j2 j3, range4 n (j0, j1, j2, j3) →
      getitem4 a' j0 j1 j2 j3 =
        if decide ((j0, j1, j2, j3) = (i0, i1, i2, i3)) then Ok v
        else getitem4 a j0 j1 j2 j3.
Proof.
  intros [Hd Hl] Hi. unfold setitem4. rewrite Hd, index4_in_range by done.
  cbn [bind]. eexists. split; [done|]. split.
  { split; cbn; [done|]. by rewrite length_insert. }
  intros j0 j1 j2 j3 Hj. unfold getitem4. cbn [dims elems].
  rewrite Hd, index4_in_range by done. cbn [bind].
  destruct Hi as (? & ? & ? & ?), Hj as (? & ? & ? & ?).
  unfold in_range in *.
  case_decide as E.
  - injection E as -> -> -> ->.
    rewrite list_lookup_insert_eq; [done|].
    rewrite Hl. apply offset4_lt; lia.
  - rewrite list_lookup_insert_ne; [done|].
    intros E'. apply offset4_inj in E' as (? & ? & ? & ?); [|lia..].
    apply E. f_equal; [f_equal; [f_equal|]|]; lia.
Qed.

(** C9: on an array of shape (n, n, n, n) and indices within [0, n), the
    function returns normally; afterwards the array has the same shape, each
    of the eight index tuples holds the value, and the element at any other
    index tuple is what it was. *)
Theorem set_four_index_element_frame n a (i0 i1 i2 i3 : Z) v :
  cubic4 n a → range4 n (i0, i1, i2, i3) →
  ∃ a', set_four_index_element a i0 i1 i2 i3 v = Ok a' ∧ cubic4 n a' ∧
    ∀ j0 j1 j2 j3, range4 n (j0, j1, j2, j3) →
      getitem4 a' j0 j1 j2 j3 =
        if bool_decide ((j0, j1, j2, j3) ∈ sym8 i0 i1 i2 i3) then Ok v
        else getitem4 a j0 j1 j2 j3.
Proof.
  intros C0 (R0 & R1 & R2 & R3). unfold set_four_index_element.
  destruct (setitem4_spec n a i0 i1 i2 i3 v) as (a1 & -> & C1 & G1);
    [done | by unfold range4 |]. cbn [bind].
  destruct (setitem4_spec n a1 i1 i0 i3 i2 v) as (a2 & -> & C2 & G2);
    [done | by unfold range4 |]. cbn [bind].
  destruct (setitem4_spec n a2 i2 i1 i0 i3 v) as (a3 & -> & C3 & G3);
    [done | by unfold range4 |]. cbn [bind].
  destruct (setitem4_spec n a3 i0 i3 i2 i1 v) as (a4 & -> & C4 & G4);
    [done | by unfold range4 |]. cbn [bind].
  destruct (setitem4_spec n a4 i2 i3 i0 i1 v) as (a5 & -> & C5 & G5);
    [done | by unfold range4 |]. cbn [bind].
  destruct (setitem4_spec n a5 i3 i2 i1 i0 v) as (a6 & -> & C6 & G6);
    [done | by unfold range4 |]. cbn [bind].
  destruct (setitem4_spec n a6 i1 i2 i3 i0 v) as (a7 & -> & C7 & G7);
    [done | by unfold range4 |]. cbn [bind].
  destruct (setitem4_spec n a7 i3 i0 i1 i2 v) as (a8 & -> & C8 & G8);
    [done | by unfold range4 |].
  exists a8. split; [done|]. split; [done|].
  intros j0 j1 j2 j3 Hj.
  rewrite G8, G7, G6, G5, G4, G3, G2, G1 by done.
  unfold sym8.
  case_bool_decide as Hin.
  - rewrite !elem_of_cons, elem_of_nil in Hin.
    repeat case_decide; try done. exfalso. intuition congruence.
  - rewrite !elem_of_cons, elem_of_nil in Hin.
    repeat case_decide; try done; exfalso; apply Hin; auto 10.
Qed.

End FourIndexFacts.

(** The frame property on a 2 x 2 x 2 x 2 array of zeros, writing 5 at
    (0, 0, 0, 1). *)
Lemma set_four_index_element_frame_witness :
  let a := Array4 (2, 2, 2, 2) (replicate 16 0%Z) in
  ∃ a', set_four_index_element a 0 0 0 1 5%Z = Ok a' ∧ cubic4 2 a' ∧
    ∀ j0 j1 j2 j3, range4 2 (j0, j1, j2, j3) →
      getitem4 a' j0 j1 j2 j3 =
        if bool_decide ((j0, j1, j2, j3) ∈ sym8 0 0 0 1) then Ok 5%Z
        else getitem4 a j0 j1 j2 j3.
Proof.
  apply (set_four_index_element_frame 2).
  - split; reflexivity.
  - unfold range4, in_range. lia.
Defined.

(** ** Cell volume *)

Section VolumeFacts.
Context {F : Type} `{!Scalar F}.
Local Open Scope F_scope.

(** C3: for a matrix whose rows have length 3, [volume] returns the
    Euclidean norm of the row when there is one row, the norm of the vector
    product of the rows when there are two, the determinant when there are
    three, and raises [ValueError] when there is no row or more than
    three. *)
Theorem volume_by_rows :
  (∀ x y z : F,
     volume (Mat [[x; y; z]]) = Ok (fsqrt (x * x + y * y + z * z))) ∧
  (∀ a0 a1 a2 b0 b1 b2 : F,
     volume (Mat [[a0; a1; a2]; [b0; b1; b2]]) =
       Ok (linalg_norm
             [a1 * b2 - a2 * b1; a2 * b0 - a0 * b2; a0 * b1 - a1 * b0])) ∧
  (∀ a0 a1 a2 b0 b1 b2 c0 c1 c2 : F,
     volume (Mat [[a0; a1; a2]; [b0; b1; b2]; [c0; c1; c2]]) =
       Ok (a0 * (b1 * c2 - b2 * c1) - a1 * (b0 * c2 - b2 * c0)
           + a2 * (b0 * c1 - b1 * c0))) ∧
  volume (Mat []) = Raise ValueError ∧
  (∀ (r0 r1 r2 r3 : list F) (rest : list (list F)),
     volume (Mat (r0 :: r1 :: r2 :: r3 :: rest)) = Raise ValueError).
Proof.
  split_and!.
  - intros x y z. reflexivity.
  - intros a0 a1 a2 b0 b1 b2. reflexivity.
  - intros a0 a1 a2 b0 b1 b2 c0 c1 c2. reflexivity.
  - reflexivity.
  - intros r0 r1 r2 r3 rest. reflexivity.
Qed.

(** A rank-1 array is measured by its norm, whatever its length. *)
Lemma volume_vec (v : list F) : volume (Vec v) = Ok (linalg_norm v).
Proof. reflexivity. Qed.

End VolumeFacts.

(** C10: in binary64 arithmetic, on the rows (1,0,0), (0,0,1), (0,1,0) of a
    left-handed basis, [volume] returns -1, a negative number: the
    determinant is returned with its sign. *)
Theorem volume_left_handed_negative :
  volume (Mat [[1; 0; 0]; [0; 0; 1]; [0; 1; 0]]%float) = Ok (-1)%float ∧
  ((-1)%float <? fzero)%F = true.
Proof. split; vm_compute; reflexivity. Qed.

(** ** Natural orbitals and the density-matrix check *)

Section DensityFacts.
Context {F : Type} `{!Scalar F}.
Local Open Scope F_scope.
Variable eigh : list (list F) → list (list F) → result (list F * list (list F)).
Implicit Types (m a b dm overlap : list (list F)) (n : nat).

Lemma square_ncols n m : square n m → ncols m = n.
Proof.
  intros [Hl Hr]. destruct m as [|r m]; [done|].
  apply Forall_cons_1 in Hr as [Hr _]. exact Hr.
Qed.

Lemma square_transpose n m : square n m → square n (transpose m).
Proof.
  intros Hm. pose proof (square_ncols _ _ Hm) as Hc. destruct Hm as [Hl Hr].
  unfold transpose. rewrite Hc. split.
  - by rewrite length_fmap, length_seq.
  - apply Forall_fmap, Forall_forall. intros j _. cbn. unfold col.
    by rewrite length_fmap.
Qed.

Lemma square_matmul n a b : square n a → square n b → square n (matmul a b).
Proof.
  intros [Hl _] Hb. unfold matmul. rewrite (square_ncols _ _ Hb). split.
  - by rewrite length_fmap.
  - apply Forall_fmap, Forall_forall. intros r _. cbn.
    by rewrite length_fmap, length_seq.
Qed.

Lemma dot_square n a b : square n a → square n b → dot a b = Ok (matmul a b).
Proof.
  intros Ha [Hl _]. unfold dot.
  by rewrite (square_ncols _ _ Ha), Hl, bool_decide_eq_true_2.
Qed.


(** On square arguments of equal size the two products are defined, and
    the function returns what the solver returns for [(S^T (DM S), S)]:
    the eigenvalues as they come, the eigenvectors cut to [n] columns. *)
Lemma derive_naturals_solver n dm overlap :
  square n dm → square n overlap →
  derive_naturals eigh dm overlap =
    ('(evals, evecs) <-
       eigh (matmul (transpose overlap) (matmul dm overlap)) overlap;
     Ok (take n <$> evecs, evals)).
Proof.
  intros Hdm Hs. unfold derive_naturals.
  rewrite (dot_square n) by done. cbn [bind].
  rewrite (dot_square n)
    by (try apply square_transpose; try apply square_matmul; done).
  cbn [bind]. by rewrite (square_ncols n) by done.
Qed.

(** X10: an exception of the solver, such as [LinAlgError] for an overlap
    matrix that is not positive definite, is the exception of
    [derive_naturals] and of [check_dm]. *)
Lemma solver_failure n dm overlap (e : exn) (eps occ_max : F) :
  square n dm → square n overlap →
  eigh (matmul (transpose overlap) (matmul dm overlap)) overlap = Raise e →
  derive_naturals eigh dm overlap = Raise e ∧
  check_dm eigh dm overlap eps occ_max = Raise e.
Proof.
  intros Hdm Hs He. unfold check_dm.
  rewrite (derive_naturals_solver n) by done. by rewrite He.
Qed.

(** C1: when [derive_naturals] returns occupations with minimum [mn] and
    maximum [mx], [check_dm] raises [ValueError] exactly when [mn < -eps]
    or [mx > occ_max + eps], and otherwise returns [None]; it has no
    other outcome. *)
Theorem check_dm_raises_iff (dm overlap : list (list F)) (eps occ_max : F)
    (coeffs : list (list F)) (occs : list F) (mn mx : F) :
  derive_naturals eigh dm overlap = Ok (coeffs, occs) →
  amin occs = Ok mn →
  amax occs = Ok mx →
  (check_dm eigh dm overlap eps occ_max = Raise ValueError ↔
     (mn <? - eps) = true ∨ (mx >? occ_max + eps) = true) ∧
  (check_dm eigh dm overlap eps occ_max = Ok tt ↔
     (mn <? - eps) = false ∧ (mx >? occ_max + eps) = false).
Proof.
  intros Hd Hmin Hmax. unfold check_dm. rewrite Hd. cbn [bind].
  rewrite Hmin. cbn [bind].
  destruct (mn <? - eps).
  - split; split; try done; auto. intros [? ?]; done.
  - rewrite Hmax. cbn [bind]. destruct (mx >? occ_max + eps).
    + split; split; try done; auto. intros [? ?]; done.
    + split; split; try done. intros [?|?]; done.
Qed.

End DensityFacts.

(** The density matrix diag(2, 1) and the unit overlap matrix, in binary64
    arithmetic, checked with [eps = 1e-4] and [occ_max = 1]. *)
Lemma check_dm_raises_iff_witness :
  let dm := [[2; 0]; [0; 1]]%float in
  let overlap := [[1; 0]; [0; 1]]%float in
  let eps := (1 / 10000)%float in
  let occ_max := 1%float in
  (check_dm eigh_diag2 dm overlap eps occ_max = Raise ValueError ↔
     (1%float <? - eps)%F = true ∨ (2%float >? occ_max + eps)%F = true) ∧
  (check_dm eigh_diag2 dm overlap eps occ_max = Ok tt ↔
     (1%float <? - eps)%F = false ∧ (2%float >? occ_max + eps)%F = false).
Proof.
  apply (check_dm_raises_iff eigh_diag2 _ _ _ _
           [[0; 1]; [1; 0]]%float [1; 2]%float); reflexivity.
Defined.

(** ** The string table *)

Section StrtoboolFacts.

Lemma tokens_disjoint (k : string) :
  k ∈ truthy_tokens → k ∈ falsy_tokens → False.
Proof.
  unfold truthy_tokens, falsy_tokens. rewrite !elem_of_cons, !elem_of_nil.
  intros H1 H2. intuition (subst; discriminate).
Qed.

Lemma STRTOBOOL_lookup (k : string) :
  STRTOBOOL !! k =
    if bool_decide (k ∈ truthy_tokens) then Some true
    else if bool_decide (k ∈ falsy_tokens) then Some false
    else None.
Proof.
  unfold STRTOBOOL. cbn [list_to_map foldr uncurry fst snd].
  repeat (rewrite lookup_insert; case_decide;
          [subst k; vm_compute; reflexivity|]).
  rewrite lookup_empty.
  rewrite !bool_decide_eq_false_2; [done| |];
    unfold truthy_tokens, falsy_tokens;
    rewrite !elem_of_cons, elem_of_nil; intuition congruence.
Qed.

Lemma lower_ascii_idem (c : ascii) :
  lower_ascii (lower_ascii c) = lower_ascii c.
Proof. destruct c as [[] [] [] [] [] [] [] []]; vm_compute; reflexivity. Qed.

Lemma lower_idem (s : string) : lower (lower s) = lower s.
Proof.
  induction s as [|c s IH]; cbn; [done|]. by rewrite lower_ascii_idem, IH.
Qed.

(** C4: [strtobool] looks the lower-cased string up: it returns [True]
    exactly when that is one of y, yes, t, true, on, 1, [False] exactly when
    it is one of n, no, f, false, off, 0, and raises [ValueError] for every
    other string; the case of the letters does not matter. *)
Theorem strtobool_table (value : string) :
  (strtobool value = Ok true ↔ lower value ∈ truthy_tokens) ∧
  (strtobool value = Ok false ↔ lower value ∈ falsy_tokens) ∧
  (strtobool value = Raise ValueError ↔
     (lower value ∉ truthy_tokens) ∧ (lower value ∉ falsy_tokens)) ∧
  strtobool (lower value) = strtobool value.
Proof.
  unfold strtobool. rewrite lower_idem, STRTOBOOL_lookup.
  pose proof (tokens_disjoint (lower value)) as D.
  repeat case_bool_decide; split_and!; try done; split; try done;
    intuition congruence.
Qed.

Example strtobool_examples :
  strtobool "YES" = Ok true ∧ strtobool "yes" = Ok true ∧
  strtobool "Y" = Ok true ∧ strtobool "0" = Ok false ∧
  strtobool "off" = Ok false ∧ strtobool "maybe" = Raise ValueError.
Proof. vm_compute. done. Qed.

End StrtoboolFacts.

(** ** The container's density matrices *)

Section ContainerFacts.
Context {F : Type} `{!Scalar F}.

(** The accessors have no data exactly when nothing is stored and the
    orbitals they need are missing. *)
Lemma get_dm_full_None (m : IOData (F:=F)) :
  get_dm_full m = None ↔ dm_full_scf m = None ∧ orb_alpha m = None.
Proof.
  unfold get_dm_full.
  destruct (dm_full_scf m), (orb_alpha m), (orb_beta m); intuition congruence.
Qed.

(** C6: on a container built with no attribute, [get_dm_full] and
    [get_dm_spin] both return [None]; neither raises. *)
Theorem dms_empty :
  get_dm_full (F:=F) IOData_empty = None ∧
  get_dm_spin (F:=F) IOData_empty = None.
Proof. split; reflexivity. Qed.

End ContainerFacts.

(** * Further properties *)

(** ** Reading with the line cursor *)

Section LineIteratorReading.
Import LineIterator.

(** [opened] is the cursor after [__init__] and [__enter__]. *)
Lemma enter_init fs (fname : string) (ls : list string) :
  fs fname = Some ls → enter fs (init fname) = (Ok tt, opened fname ls).
Proof. intros H. unfold enter. cbn. by rewrite H. Qed.

Lemma stack_cases {A} (l : list A) : l = [] ∨ ∃ l' x, l = l' ++ [x].
Proof. destruct l as [|x l'] using rev_ind; eauto. Qed.

Lemma next_pop (fname : string) (h : option file) (n : Z)
    (st : list string) (x : string) :
  next (Build fname h n (st ++ [x])) = (Ok x, Build fname h (n + 1)%Z st).
Proof.
  unfold next. cbn -[Z.add]. by rewrite truthy_snoc, list_pop_snoc.
Qed.

Lemma nexts_stack (st st0 : list string) (fname : string) (h : option file)
    (n : Z) :
  nexts (length st) (Build fname h n (st0 ++ st)) =
    (Ok <$> reverse st, Build fname h (n + Z.of_nat (length st)) st0).
Proof.
  revert n. induction st as [|x st IH] using rev_ind; intros n.
  - cbn. rewrite app_nil_r. do 2 f_equal. lia.
  - rewrite length_app, Nat.add_1_r. cbn [nexts].
    rewrite app_assoc, next_pop, IH, reverse_snoc. cbn.
    do 2 f_equal. lia.
Qed.

Lemma backs_state (ls : list string) (self : t) :
  backs ls self =
    Build (filename self) (fh self) (lineno self - Z.of_nat (length ls))
      (stack self ++ ls).
Proof.
  unfold backs. revert self. induction ls as [|l ls IH]; intros self.
  - destruct self. cbn. rewrite app_nil_r. f_equal. lia.
  - cbn [foldl]. rewrite IH. destruct self. cbn -[Z.sub Z.of_nat].
    rewrite <- app_assoc. cbn [app]. f_equal. cbn [length]. lia.
Qed.

(** X1: lines pushed back with [back] come out of [__next__] last pushed
    first, and once as many were read as were pushed the cursor is what it
    was: counter, stack and file handle.  This holds in every state. *)
Theorem backs_then_nexts (ls : list string) (self : t) :
  nexts (length ls) (backs ls self) = (Ok <$> reverse ls, self).
Proof.
  rewrite backs_state, nexts_stack. destruct self. cbn -[Z.sub Z.of_nat].
  do 2 f_equal. lia.
Qed.

(** X2: [k] calls of [__next__] on an open cursor return the pushed-back
    lines, last pushed first, then the lines left in the file in their
    order, then raise [StopIteration] each time; whatever the outcomes, the
    counter has grown by [k]. *)
Theorem nexts_drain (k : nat) (fname : string) (rem st : list string) (n : Z) :
  nexts k (Build fname (Some (File rem false)) n st) =
    (take k (Ok <$> (reverse st ++ rem))
       ++ replicate (k - (length st + length rem)) (Raise StopIteration),
     Build fname (Some (File (drop (k - length st) rem) false))
       (n + Z.of_nat k)
       (take (length st - k) st)).
Proof.
  revert rem st n. induction k as [|k IH]; intros rem st n.
  - cbn. rewrite Nat.sub_0_r, firstn_all. do 2 f_equal. lia.
  - cbn [nexts]. destruct (stack_cases st) as [-> | (st' & x & ->)].
    + destruct rem as [|l rem].
      * unfold next at 1. cbn -[Z.add nexts].
        change (set_fh _ _)
          with (Build fname (Some (File [] false)) (n + 1)%Z []).
        rewrite IH. cbn -[Z.add Z.of_nat].
        rewrite !take_nil, !drop_nil, Nat.sub_0_r. cbn -[Z.add Z.of_nat].
        do 2 f_equal. lia.
      * unfold next at 1. cbn -[Z.add nexts].
        change (set_fh _ _)
          with (Build fname (Some (File rem false)) (n + 1)%Z []).
        rewrite IH. cbn -[Z.add Z.of_nat].
        rewrite !take_nil, !Nat.sub_0_r. do 2 f_equal. lia.
    + rewrite next_pop, IH, reverse_snoc, length_app, Nat.add_1_r.
      cbn -[Z.add Z.of_nat].
      replace (length st' - k) with (S (length st') - S k) by lia.
      rewrite take_app_le by lia. do 2 f_equal. lia.
Qed.

(** X3: when [__next__] raises, the push-back stack was empty, the counter
    has been increased all the same and nothing else has changed; the
    exception is [TypeError] on a cursor that was never entered,
    [ValueError] after [__exit__], and [StopIteration] at the end of the
    file. *)
Theorem next_raises (self : t) (e : exn) :
  (next self).1 = Raise e →
  stack self = [] ∧
  (next self).2 = set_lineno (lineno self + 1)%Z self ∧
  e = match fh self with
      | None => TypeError
      | Some f => if closed f then ValueError else StopIteration
      end.
Proof.
  destruct self as [fname h n st]. unfold next. cbn -[Z.add].
  destruct (stack_cases st) as [-> | (st' & x & ->)].
  - cbn -[Z.add]. destruct h as [[ls c]|]; cbn -[Z.add].
    + unfold file_next. cbn -[Z.add]. destruct c; cbn -[Z.add].
      * intros [= <-]. done.
      * destruct ls; cbn -[Z.add]; [|done]. intros [= <-]. done.
    + intros [= <-]. done.
  - rewrite truthy_snoc, list_pop_snoc. done.
Qed.

Lemma next_raises_witness :
  stack (init "f") = [] ∧
  (next (init "f")).2 = set_lineno (lineno (init "f") + 1)%Z (init "f") ∧
  TypeError = match fh (init "f") with
              | None => TypeError
              | Some f => if closed f then ValueError else StopIteration
              end.
Proof. apply (next_raises (init "f") TypeError). reflexivity. Defined.

Lemma tracks_exec fs (ls : list string) (o : op) (self : t) :
  is_next_or_back o = true → tracks ls self → tracks ls (exec fs o self).
Proof.
  intros Ho (pre & rem & -> & Hfh & Hle & Heq).
  destruct self as [fname h n st]. cbn in Hfh, Hle, Heq. subst h.
  destruct o; try discriminate; cbn [exec].
  - destruct (stack_cases st) as [-> | (st' & x & ->)].
    + destruct rem as [|l rem].
      * exists pre, []. cbn -[Z.add Z.of_nat]. split_and!; [done..| |done].
        cbn in Hle. lia.
      * exists (pre ++ [l]), rem. cbn -[Z.add Z.of_nat].
        rewrite <- app_assoc. split_and!; [done..| |].
        -- rewrite length_app. cbn in *. lia.
        -- intros _. rewrite length_app. cbn in *.
           specialize (Heq ltac:(done)). lia.
    + rewrite next_pop. exists pre, rem. cbn -[Z.add Z.of_nat].
      rewrite length_app in Hle, Heq. cbn [length] in Hle, Heq.
      split_and!; [done..| |].
      * lia.
      * intros Hrem. specialize (Heq Hrem). lia.
  - exists pre, rem. cbn -[Z.add Z.sub Z.of_nat].
    rewrite length_app. cbn [length].
    split_and!; [done..| |].
    + lia.
    + intros Hrem. specialize (Heq Hrem). lia.
Qed.

(** X4: on a cursor opened on a file, after any sequence of [__next__] and
    [back] calls, the counter is the number of lines taken from the file
    minus the number of lines waiting on the push-back stack, as long as the
    end of the file was not hit; past the end it can only be larger. *)
Theorem lineno_tracks_file fs (os : list op) (fname : string)
    (ls : list string) :
  forallb is_next_or_back os = true →
  let self := run fs os (opened fname ls) in
  ∃ pre rem,
    ls = pre ++ rem ∧
    fh self = Some (File rem false) ∧
    (Z.of_nat (length pre) - Z.of_nat (length (stack self)) ≤ lineno self)%Z ∧
    (rem ≠ [] →
     lineno self = (Z.of_nat (length pre) - Z.of_nat (length (stack self)))%Z).
Proof.
  intros Hos. cbn zeta.
  assert (tracks ls (run fs os (opened fname ls))) as (pre & rem & H1 & H2 & H3 & H4).
  { unfold run. assert (tracks ls (opened fname ls)) as H0.
    { exists [], ls. cbn. split_and!; done. }
    revert H0 Hos. generalize (opened fname ls).
    induction os as [|o os IH]; intros s H0 Hos; [done|].
    cbn in Hos. apply andb_true_iff in Hos as [Ho Hos].
    cbn [foldl]. apply IH; [|done]. by apply tracks_exec. }
  exists pre, rem. split_and!; [done..| |].
  - lia.
  - intros Hrem. specialize (H4 Hrem). lia.
Qed.

Lemma lineno_tracks_file_witness :
  let ls := ["a"; "b"; "c"] in
  let self :=
    run (λ _, None) [Next; Next; Back "b"; Next; Back "b"] (opened "f" ls) in
  ∃ pre rem,
    ls = pre ++ rem ∧
    fh self = Some (File rem false) ∧
    (Z.of_nat (length pre) - Z.of_nat (length (stack self)) ≤ lineno self)%Z ∧
    (rem ≠ [] →
     lineno self = (Z.of_nat (length pre) - Z.of_nat (length (stack self)))%Z).
Proof.
  apply (lineno_tracks_file (λ _, None) [Next; Next; Back "b"; Next; Back "b"]
           "f" ["a"; "b"; "c"]).
  reflexivity.
Defined.

End LineIteratorReading.

(** ** Writes to the four-index object *)

Section FourIndexWrites.
Context {V : Type}.
Implicit Types (a : array4 V) (v w : V) (n : nat) (l : list V).

Lemma norm_index_valid n (i : Z) :
  valid_index n i → norm_index n i = Some (Z.to_nat (wrap_index n i)).
Proof.
  unfold valid_index, norm_index, wrap_index. intros Hi. cbn zeta.
  repeat case_decide; try lia; done.
Qed.

Lemma norm_index_invalid n (i : Z) :
  ¬ valid_index n i → norm_index n i = None.
Proof.
  unfold valid_index, norm_index. intros Hi. cbn zeta.
  repeat case_decide; try lia; done.
Qed.

Lemma index4_valid n (i0 i1 i2 i3 : Z) :
  valid4 n (i0, i1, i2, i3) →
  index4 (n, n, n, n) i0 i1 i2 i3 = Ok (off4 n (i0, i1, i2, i3)).
Proof.
  intros (H0 & H1 & H2 & H3). unfold index4.
  by rewrite !norm_index_valid.
Qed.

Lemma index4_invalid n (i0 i1 i2 i3 : Z) :
  ¬ valid4 n (i0, i1, i2, i3) →
  index4 (n, n, n, n) i0 i1 i2 i3 = Raise IndexError.
Proof.
  intros Hi. unfold index4.
  destruct (norm_index n i0) eqn:E0; [|done].
  destruct (norm_index n i1) eqn:E1; [|done].
  destruct (norm_index n i2) eqn:E2; [|done].
  destruct (norm_index n i3) eqn:E3; [|done].
  exfalso. apply Hi. unfold valid4, valid_index.
  unfold norm_index in *. cbn zeta in *.
  repeat case_decide; try discriminate; lia.
Qed.

Lemma setitem4_valid n a (i0 i1 i2 i3 : Z) v :
  dims a = (n, n, n, n) → valid4 n (i0, i1, i2, i3) →
  setitem4 a i0 i1 i2 i3 v =
    Ok (Array4 (n, n, n, n) (<[off4 n (i0, i1, i2, i3) := v]> (elems a))).
Proof.
  intros Hd Hi. unfold setitem4. by rewrite Hd, index4_valid.
Qed.

(** The whole function as one update of the buffer. *)
Lemma set_four_valid n a (i0 i1 i2 i3 : Z) v :
  dims a = (n, n, n, n) → valid4 n (i0, i1, i2, i3) →
  set_four_index_element a i0 i1 i2 i3 v =
    Ok (Array4 (n, n, n, n)
          (inserts (off4 n <$> sym8 i0 i1 i2 i3) v (elems a))).
Proof.
  intros Hd (H0 & H1 & H2 & H3). unfold set_four_index_element.
  rewrite (setitem4_valid n) by done. cbn [bind].
  do 6 (rewrite (setitem4_valid n) by done; cbn [bind elems]).
  by rewrite (setitem4_valid n) by done.
Qed.

Lemma set_four_invalid n a (i0 i1 i2 i3 : Z) v :
  dims a = (n, n, n, n) → ¬ valid4 n (i0, i1, i2, i3) →
  setitem4 a i0 i1 i2 i3 v = Raise IndexError ∧
  set_four_index_element a i0 i1 i2 i3 v = Raise IndexError.
Proof.
  intros Hd Hi. unfold set_four_index_element, setitem4 at 8.
  unfold setitem4. by rewrite Hd, index4_invalid.
Qed.

Lemma length_inserts (ks : list nat) v l : length (inserts ks v l) = length l.
Proof.
  unfold inserts. revert l. induction ks as [|k ks IH]; intros l; [done|].
  cbn [foldl]. by rewrite IH, length_insert.
Qed.

Lemma lookup_inserts (ks : list nat) v l (k : nat) :
  inserts ks v l !! k =
    if decide (k ∈ ks ∧ k < length l) then Some v else l !! k.
Proof.
  unfold inserts. revert l. induction ks as [|k0 ks IH]; intros l.
  - cbn. case_decide as H; [|done]. destruct H as [H _].
    by apply elem_of_nil in H.
  - cbn [foldl]. rewrite IH, length_insert, list_lookup_insert.
    repeat case_decide; try done; exfalso;
      rewrite elem_of_cons in *; intuition (subst; auto; lia).
Qed.

Lemma inserts_same_set (ks ks' : list nat) v l :
  (∀ k, k ∈ ks ↔ k ∈ ks') → inserts ks v l = inserts ks' v l.
Proof.
  intros H. apply list_eq. intros k. rewrite !lookup_inserts.
  repeat case_decide; try done; exfalso; rewrite H in *; tauto.
Qed.

(** X5: on an array of shape (n, n, n, n) the call returns normally exactly
    when each index lies in [-n, n), and then the array keeps its shape and
    size; otherwise the very first assignment raises [IndexError], so that
    nothing has been written. *)
Theorem set_four_index_element_bounds n a (i0 i1 i2 i3 : Z) v :
  dims a = (n, n, n, n) →
  (valid4 n (i0, i1, i2, i3) →
   ∃ a', set_four_index_element a i0 i1 i2 i3 v = Ok a' ∧
         dims a' = dims a ∧ length (elems a') = length (elems a)) ∧
  (¬ valid4 n (i0, i1, i2, i3) →
   setitem4 a i0 i1 i2 i3 v = Raise IndexError ∧
   set_four_index_element a i0 i1 i2 i3 v = Raise IndexError).
Proof.
  intros Hd. split.
  - intros Hi. rewrite (set_four_valid n) by done. eexists.
    split; [done|]. cbn [dims elems]. by rewrite length_inserts.
  - by apply set_four_invalid.
Qed.

Lemma sym8_valid n (i0 i1 i2 i3 : Z) (t : Z * Z * Z * Z) :
  valid4 n (i0, i1, i2, i3) → t ∈ sym8 i0 i1 i2 i3 → valid4 n t.
Proof.
  intros (H0 & H1 & H2 & H3). unfold sym8.
  rewrite !elem_of_cons, elem_of_nil.
  intros H; repeat destruct H as [->|H]; try done.
Qed.

Lemma sym8_same_orbit (i0 i1 i2 i3 j0 j1 j2 j3 : Z) (t : Z * Z * Z * Z) :
  (j0, j1, j2, j3) ∈ sym8 i0 i1 i2 i3 →
  t ∈ sym8 j0 j1 j2 j3 ↔ t ∈ sym8 i0 i1 i2 i3.
Proof.
  unfold sym8. rewrite !elem_of_cons, !elem_of_nil.
  intros H; repeat destruct H as [[= -> -> -> ->]|H]; try done; tauto.
Qed.

(** X6: the eight index tuples are interchangeable: called with any tuple
    of the symmetry class of (i0, i1, i2, i3), the function does what it
    does with (i0, i1, i2, i3) itself. *)
Theorem set_four_index_element_symmetric n a (i0 i1 i2 i3 j0 j1 j2 j3 : Z) v :
  dims a = (n, n, n, n) →
  (j0, j1, j2, j3) ∈ sym8 i0 i1 i2 i3 →
  set_four_index_element a j0 j1 j2 j3 v =
    set_four_index_element a i0 i1 i2 i3 v.
Proof.
  intros Hd Hj.
  assert (valid4 n (j0, j1, j2, j3) ↔ valid4 n (i0, i1, i2, i3)) as Hv.
  { clear Hd. unfold sym8 in Hj. rewrite !elem_of_cons, elem_of_nil in Hj.
    repeat destruct Hj as [[= -> -> -> ->]|Hj]; try done;
      unfold valid4; tauto. }
  assert (Decision (valid4 n (i0, i1, i2, i3))) as [Hi|Hi].
  { unfold valid4, valid_index. apply _. }
  - rewrite !(set_four_valid n) by tauto. do 2 f_equal.
    apply inserts_same_set. intros k. rewrite !list_elem_of_fmap.
    by setoid_rewrite (sym8_same_orbit _ _ _ _ _ _ _ _ _ Hj).
  - destruct (set_four_invalid n a i0 i1 i2 i3 v) as [_ ->]; [done..|].
    destruct (set_four_invalid n a j0 j1 j2 j3 v) as [_ ->]; [done|tauto|].
    done.
Qed.

(** X7: the function overwrites: the same call made again with another
    value leaves the array that this second call alone would leave. *)
Theorem set_four_index_element_overwrite n a (i0 i1 i2 i3 : Z) v w :
  dims a = (n, n, n, n) →
  (a1 <- set_four_index_element a i0 i1 i2 i3 v;
   set_four_index_element a1 i0 i1 i2 i3 w) =
    set_four_index_element a i0 i1 i2 i3 w.
Proof.
  intros Hd.
  assert (Decision (valid4 n (i0, i1, i2, i3))) as [Hi|Hi].
  { unfold valid4, valid_index. apply _. }
  - rewrite !(set_four_valid n a) by done. cbn [bind].
    rewrite (set_four_valid n) by done. cbn [elems]. do 2 f_equal.
    apply list_eq. intros k. rewrite !lookup_inserts, length_inserts.
    repeat case_decide; try done; tauto.
  - destruct (set_four_invalid n a i0 i1 i2 i3 v) as [_ ->]; [done..|].
    destruct (set_four_invalid n a i0 i1 i2 i3 w) as [_ ->]; [done..|].
    done.
Qed.

Lemma wrap_index_valid n (i : Z) :
  valid_index n i →
  valid_index n (wrap_index n i) ∧
  wrap_index n (wrap_index n i) = wrap_index n i.
Proof.
  unfold valid_index, wrap_index. intros Hi.
  repeat case_decide; split; lia.
Qed.

(** X8: an index counted from the end addresses what the matching index
    from the start addresses: with accepted indices, the call does what it
    does with each negative index [i] replaced by [i + n]. *)
Theorem set_four_index_element_negative n a (i0 i1 i2 i3 : Z) v :
  dims a = (n, n, n, n) → valid4 n (i0, i1, i2, i3) →
  set_four_index_element a i0 i1 i2 i3 v =
    set_four_index_element a (wrap_index n i0) (wrap_index n i1)
      (wrap_index n i2) (wrap_index n i3) v.
Proof.
  intros Hd (H0 & H1 & H2 & H3).
  destruct (wrap_index_valid n i0 H0) as [V0 E0].
  destruct (wrap_index_valid n i1 H1) as [V1 E1].
  destruct (wrap_index_valid n i2 H2) as [V2 E2].
  destruct (wrap_index_valid n i3 H3) as [V3 E3].
  rewrite !(set_four_valid n) by done.
  cbn [sym8 fmap list_fmap off4]. unfold off4.
  by rewrite E0, E1, E2, E3.
Qed.

Lemma range4_valid4 n (t : Z * Z * Z * Z) : range4 n t → valid4 n t.
Proof.
  destruct t as [[[t0 t1] t2] t3].
  unfold range4, valid4, in_range, valid_index. lia.
Qed.

Lemma sym8_range n (i0 i1 i2 i3 : Z) (t : Z * Z * Z * Z) :
  range4 n (i0, i1, i2, i3) → t ∈ sym8 i0 i1 i2 i3 → range4 n t.
Proof.
  intros (H0 & H1 & H2 & H3). unfold sym8.
  rewrite !elem_of_cons, elem_of_nil.
  intros H; repeat destruct H as [->|H]; try done.
Qed.

Lemma off4_inj n (t t' : Z * Z * Z * Z) :
  range4 n t → range4 n t' → off4 n t = off4 n t' → t = t'.
Proof.
  destruct t as [[[t0 t1] t2] t3], t' as [[[u0 u1] u2] u3].
  unfold range4, in_range, off4, wrap_index.
  intros (? & ? & ? & ?) (? & ? & ? & ?).
  rewrite !decide_False by lia.
  intros E. apply offset4_inj in E as (? & ? & ? & ?); [|lia..].
  f_equal; [f_equal; [f_equal|]|]; lia.
Qed.

(** X9: calls on index tuples of different symmetry classes do not
    interfere: made in either order, with indices within [0, n), they leave
    the same array. *)
Theorem set_four_index_element_commute n a (i0 i1 i2 i3 j0 j1 j2 j3 : Z) v w :
  dims a = (n, n, n, n) →
  range4 n (i0, i1, i2, i3) → range4 n (j0, j1, j2, j3) →
  (j0, j1, j2, j3) ∉ sym8 i0 i1 i2 i3 →
  (a1 <- set_four_index_element a i0 i1 i2 i3 v;
   set_four_index_element a1 j0 j1 j2 j3 w) =
  (a1 <- set_four_index_element a j0 j1 j2 j3 w;
   set_four_index_element a1 i0 i1 i2 i3 v).
Proof.
  intros Hd Hi Hj Hij.
  pose proof (range4_valid4 _ _ Hi) as Vi.
  pose proof (range4_valid4 _ _ Hj) as Vj.
  rewrite !(set_four_valid n a) by done. cbn [bind].
  rewrite !(set_four_valid n) by done. cbn [elems]. do 2 f_equal.
  apply list_eq. intros k. rewrite !lookup_inserts, !length_inserts.
  destruct (decide (k ∈ off4 n <$> sym8 i0 i1 i2 i3)) as [Ki|Ki];
    destruct (decide (k ∈ off4 n <$> sym8 j0 j1 j2 j3)) as [Kj|Kj];
    [exfalso | repeat case_decide; try done; tauto..].
  apply list_elem_of_fmap in Ki as (t & -> & Ht).
  apply list_elem_of_fmap in Kj as (t' & E & Ht').
  pose proof (sym8_range _ _ _ _ _ _ Hi Ht) as Rt.
  pose proof (sym8_range _ _ _ _ _ _ Hj Ht') as Rt'.
  apply (off4_inj n t t' Rt Rt') in E as ->.
  destruct t' as [[[t0 t1] t2] t3]. apply Hij.
  apply (sym8_same_orbit _ _ _ _ _ _ _ _ (j0, j1, j2, j3) Ht).
  apply (sym8_same_orbit _ _ _ _ _ _ _ _ (j0, j1, j2, j3) Ht').
  unfold sym8. apply list_elem_of_here.
Qed.

End FourIndexWrites.

(** The bounds on a 2 x 2 x 2 x 2 array of zeros, with the indices
    (0, 0, 0, 2). *)
Lemma set_four_index_element_bounds_witness :
  let a := Array4 (2, 2, 2, 2) (replicate 16 0%Z) in
  (valid4 2 (0, 0, 0, 2)%Z →
   ∃ a', set_four_index_element a 0 0 0 2 5%Z = Ok a' ∧
         dims a' = dims a ∧ length (elems a') = length (elems a)) ∧
  (¬ valid4 2 (0, 0, 0, 2)%Z →
   setitem4 a 0 0 0 2 5%Z = Raise IndexError ∧
   set_four_index_element a 0 0 0 2 5%Z = Raise IndexError).
Proof. apply (set_four_index_element_bounds 2). reflexivity. Defined.

(** On the same array, (0, 0, 1, 0) stands for (0, 0, 0, 1). *)
Lemma set_four_index_element_symmetric_witness :
  let a := Array4 (2, 2, 2, 2) (replicate 16 0%Z) in
  set_four_index_element a 0 0 1 0 5%Z =
    set_four_index_element a 0 0 0 1 5%Z.
Proof.
  apply (set_four_index_element_symmetric 2).
  - reflexivity.
  - unfold sym8. rewrite !elem_of_cons. auto.
Defined.

Lemma set_four_index_element_overwrite_witness :
  let a := Array4 (2, 2, 2, 2) (replicate 16 0%Z) in
  (a1 <- set_four_index_element a 0 0 0 1 5%Z;
   set_four_index_element a1 0 0 0 1 7%Z) =
    set_four_index_element a 0 0 0 1 7%Z.
Proof. apply (set_four_index_element_overwrite 2). reflexivity. Defined.

Lemma set_four_index_element_negative_witness :
  let a := Array4 (2, 2, 2, 2) (replicate 16 0%Z) in
  set_four_index_element a (-1) (-2) 0 1 5%Z =
    set_four_index_element a (wrap_index 2 (-1)) (wrap_index 2 (-2))
      (wrap_index 2 0) (wrap_index 2 1) 5%Z.
Proof.
  apply (set_four_index_element_negative 2).
  - reflexivity.
  - unfold valid4, valid_index. lia.
Defined.

Lemma set_four_index_element_commute_witness :
  let a := Array4 (2, 2, 2, 2) (replicate 16 0%Z) in
  (a1 <- set_four_index_element a 0 0 0 1 5%Z;
   set_four_index_element a1 0 1 1 0 7%Z) =
  (a1 <- set_four_index_element a 0 1 1 0 7%Z;
   set_four_index_element a1 0 0 0 1 5%Z).
Proof.
  apply (set_four_index_element_commute 2).
  - reflexivity.
  - unfold range4, in_range. lia.
  - unfold range4, in_range. lia.
  - unfold sym8. rewrite !elem_of_cons, elem_of_nil.
    intros H. repeat destruct H as [H|H]; try discriminate H. exact H.
Defined.

(** ** Failures and bounds of the density-matrix check *)

Section DensityChecks.
Context {F : Type} `{!Scalar F}.
Local Open Scope F_scope.
Variable eigh : list (list F) → list (list F) → result (list F * list (list F)).
Implicit Types (dm overlap : list (list F)) (xs occs : list F).

Lemma length_matmul (a b : list (list F)) : length (matmul a b) = length a.
Proof. unfold matmul. by rewrite length_fmap. Qed.

Lemma shaped_ncols (r c : nat) (m : list (list F)) :
  shaped r c m → 0 < r → ncols m = c.
Proof.
  intros [Hl Hr] Hpos. destruct m as [|row m]; [cbn in Hl; lia|].
  apply Forall_cons_1 in Hr as [Hr _]. exact Hr.
Qed.

Lemma shaped_transpose_ncols (r c : nat) (m : list (list F)) :
  shaped r c m → 0 < r → 0 < c → ncols (transpose m) = r.
Proof.
  intros Hm Hr Hc. unfold transpose.
  rewrite (shaped_ncols r c m) by done. destruct Hm as [Hl _].
  destruct c as [|c]; [lia|]. cbn. unfold col. by rewrite length_fmap.
Qed.

(** X11: matrices whose shapes do not fit never reach the solver.  For
    [dm] of shape (r, c) and [overlap] of shape (r', c'), with [r], [r']
    and [c'] positive: when [c ≠ r'] the product [DM S] is not defined,
    and when [r' ≠ r] the product [S^T (DM S)] is not; in both cases the
    two functions raise [ValueError], whatever the solver is. *)
Theorem derive_naturals_misaligned (r c r' c' : nat) dm overlap
    (eps occ_max : F) :
  shaped r c dm → shaped r' c' overlap →
  0 < r → 0 < r' → 0 < c' →
  c ≠ r' ∨ r' ≠ r →
  derive_naturals eigh dm overlap = Raise ValueError ∧
  check_dm eigh dm overlap eps occ_max = Raise ValueError.
Proof.
  intros Hdm Hs Hr Hr' Hc' H. unfold check_dm.
  assert (derive_naturals eigh dm overlap = Raise ValueError) as ->; [|done].
  unfold derive_naturals, dot.
  rewrite (shaped_ncols r c dm) by done.
  pose proof (shaped_transpose_ncols r' c' overlap Hs Hr' Hc') as Ht.
  destruct Hdm as [Hldm _], Hs as [Hls _]. rewrite Hls.
  case_bool_decide as E1; [|done]. cbn [bind].
  rewrite Ht, length_matmul, Hldm.
  case_bool_decide as E2; [|done]. lia.
Qed.

(** X12: with no occupation at all (matrices of size 0) the check does not
    pass in silence: taking the minimum of the empty array raises
    [ValueError]. *)
Theorem check_dm_no_occupations dm overlap (eps occ_max : F)
    (coeffs : list (list F)) :
  derive_naturals eigh dm overlap = Ok (coeffs, []) →
  check_dm eigh dm overlap eps occ_max = Raise ValueError.
Proof. intros Hd. unfold check_dm. by rewrite Hd. Qed.

Lemma fmin_cases (m y : F) :
  fisnan m = false → fmin m y = if m <? y then m else y.
Proof. intros Hm. unfold fmin. rewrite Hm. by destruct (m <? y). Qed.

Lemma fmax_cases (m y : F) :
  fisnan m = false → fmax m y = if m >? y then m else y.
Proof. intros Hm. unfold fmax. rewrite Hm. by destruct (m >? y). Qed.

Lemma ordered_irrefl xs (x : F) : ordered_on xs → x ∈ xs → (x <? x) = false.
Proof.
  intros (_ & Ha & _) Hx. destruct (x <? x) eqn:E; [|done].
  by rewrite (Ha x x Hx Hx E) in E.
Qed.

(** The left fold of [fmin]: an element below which there is none. *)
Lemma foldl_fmin_least (S xs : list F) (x0 : F) :
  ordered_on S → x0 ∈ S → (∀ x, x ∈ xs → x ∈ S) →
  foldl fmin x0 xs ∈ x0 :: xs ∧
  ∀ o, o ∈ x0 :: xs → (o <? foldl fmin x0 xs) = false.
Proof.
  intros HS. revert x0. induction xs as [|y ys IH]; intros x0 Hx0 Hxs.
  - cbn. split; [apply list_elem_of_here|].
    intros o Ho. apply list_elem_of_singleton in Ho as ->.
    by eapply ordered_irrefl.
  - cbn [foldl].
    assert (y ∈ S) as Hy by (apply Hxs, list_elem_of_here).
    assert (fmin x0 y ∈ S ∧ (x0 <? fmin x0 y) = false ∧
            (y <? fmin x0 y) = false ∧ (fmin x0 y = x0 ∨ fmin x0 y = y))
      as (Hm & Hm0 & Hmy & Hmc).
    { pose proof HS as (Hn & Ha & _).
      rewrite fmin_cases by auto. destruct (x0 <? y) eqn:E.
      - split_and!; [done| |by apply Ha|by left].
        by eapply ordered_irrefl.
      - split_and!; [done|done| |by right].
        by eapply ordered_irrefl. }
    destruct (IH (fmin x0 y) Hm) as [Hin Hle].
    { intros x Hx. apply Hxs. by apply list_elem_of_further. }
    split.
    + rewrite !elem_of_cons in *. destruct Hin as [->|Hin]; [|tauto].
      destruct Hmc as [->| ->]; tauto.
    + assert (foldl fmin (fmin x0 y) ys ∈ S) as HmS.
      { rewrite elem_of_cons in Hin. destruct Hin as [->|Hin]; [done|].
        apply Hxs. by apply list_elem_of_further. }
      assert ((fmin x0 y <? foldl fmin (fmin x0 y) ys) = false) as Hmm
        by apply Hle, list_elem_of_here.
      pose proof HS as (_ & _ & Ht).
      intros o Ho. rewrite !elem_of_cons in Ho.
      destruct Ho as [->|[->|Ho]].
      * by apply (Ht _ (fmin x0 y)).
      * by apply (Ht _ (fmin x0 y)).
      * apply Hle. by apply list_elem_of_further.
Qed.

(** The left fold of [fmax]: an element above which there is none. *)
Lemma foldl_fmax_greatest (S xs : list F) (x0 : F) :
  ordered_on S → x0 ∈ S → (∀ x, x ∈ xs → x ∈ S) →
  foldl fmax x0 xs ∈ x0 :: xs ∧
  ∀ o, o ∈ x0 :: xs → (o >? foldl fmax x0 xs) = false.
Proof.
  intros HS. revert x0. induction xs as [|y ys IH]; intros x0 Hx0 Hxs.
  - cbn. split; [apply list_elem_of_here|].
    intros o Ho. apply list_elem_of_singleton in Ho as ->.
    by eapply ordered_irrefl.
  - cbn [foldl].
    assert (y ∈ S) as Hy by (apply Hxs, list_elem_of_here).
    assert (fmax x0 y ∈ S ∧ (x0 >? fmax x0 y) = false ∧
            (y >? fmax x0 y) = false ∧ (fmax x0 y = x0 ∨ fmax x0 y = y))
      as (Hm & Hm0 & Hmy & Hmc).
    { pose proof HS as (Hn & Ha & _).
      rewrite fmax_cases by auto. destruct (x0 >? y) eqn:E.
      - split_and!; [done| |by apply Ha|by left].
        by eapply ordered_irrefl.
      - split_and!; [done|done| |by right].
        by eapply ordered_irrefl. }
    destruct (IH (fmax x0 y) Hm) as [Hin Hle].
    { intros x Hx. apply Hxs. by apply list_elem_of_further. }
    split.
    + rewrite !elem_of_cons in *. destruct Hin as [->|Hin]; [|tauto].
      destruct Hmc as [->| ->]; tauto.
    + assert (foldl fmax (fmax x0 y) ys ∈ S) as HmS.
      { rewrite elem_of_cons in Hin. destruct Hin as [->|Hin]; [done|].
        apply Hxs. by apply list_elem_of_further. }
      assert ((fmax x0 y >? foldl fmax (fmax x0 y) ys) = false) as Hmm
        by apply Hle, list_elem_of_here.
      pose proof HS as (_ & _ & Ht).
      intros o Ho. rewrite !elem_of_cons in Ho.
      destruct Ho as [->|[->|Ho]].
      * by apply (Ht _ (fmax x0 y)).
      * by apply (Ht _ (fmax x0 y)).
      * apply Hle. by apply list_elem_of_further.
Qed.

(** X13: what the check decides.  When the solver's occupations and the two
    bounds are ordinary numbers (no NaN among them), [check_dm] returns
    normally exactly when every occupation [o] has neither [o < -eps] nor
    [o > occ_max + eps], and raises [ValueError] exactly when some
    occupation has. *)
Theorem check_dm_all_occupations dm overlap (eps occ_max : F)
    (coeffs : list (list F)) occs :
  derive_naturals eigh dm overlap = Ok (coeffs, occs) →
  occs ≠ [] →
  ordered_on (- eps :: (occ_max + eps) :: occs) →
  (check_dm eigh dm overlap eps occ_max = Ok tt ↔
     Forall (occ_in_range eps occ_max) occs) ∧
  (check_dm eigh dm overlap eps occ_max = Raise ValueError ↔
     ¬ Forall (occ_in_range eps occ_max) occs).
Proof.
  intros Hd Hne HS. unfold check_dm. rewrite Hd. cbn [bind].
  destruct occs as [|x0 xs]; [done|]. cbn [amin amax bind].
  set (S := - eps :: (occ_max + eps) :: x0 :: xs) in *.
  assert (x0 ∈ S) as Hx0 by (unfold S; rewrite !elem_of_cons; auto).
  assert (∀ x, x ∈ xs → x ∈ S) as Hxs
    by (intros x Hx; unfold S; rewrite !elem_of_cons; auto).
  assert (∀ x, x ∈ x0 :: xs → x ∈ S) as Hall
    by (intros x Hx; unfold S; rewrite !elem_of_cons in *; tauto).
  assert (- eps ∈ S) as HL by (unfold S; rewrite !elem_of_cons; auto).
  assert (occ_max + eps ∈ S) as HU by (unfold S; rewrite !elem_of_cons; auto).
  destruct (foldl_fmin_least S xs x0 HS Hx0 Hxs) as [Hmin Hleast].
  destruct (foldl_fmax_greatest S xs x0 HS Hx0 Hxs) as [Hmax Hgreatest].
  set (mn := foldl fmin x0 xs) in *. set (mx := foldl fmax x0 xs) in *.
  pose proof HS as (_ & _ & Ht).
  assert (Forall (occ_in_range eps occ_max) (x0 :: xs) ↔
          (mn <? - eps) = false ∧ (mx >? occ_max + eps) = false) as ->.
  { rewrite Forall_forall. unfold occ_in_range. split.
    - intros H. split; [apply (H mn Hmin) | apply (H mx Hmax)].
    - intros [H1 H2] o Ho. split.
      + apply (Ht o mn (- eps)); auto.
      + apply (Ht (occ_max + eps) mx o); auto. }
  destruct (mn <? - eps), (mx >? occ_max + eps); cbn [bind];
    intuition congruence.
Qed.


End DensityChecks.

(** A solver that raises, on the matrices of the other examples. *)
Lemma solver_failure_witness :
  let dm := [[2; 0]; [0; 1]]%float in
  let overlap := [[1; 0]; [0; 1]]%float in
  derive_naturals eigh_not_pd dm overlap = Raise LinAlgError ∧
  check_dm eigh_not_pd dm overlap (1 / 10000)%float 1%float
    = Raise LinAlgError.
Proof.
  apply (solver_failure eigh_not_pd 2);
    [split; [reflexivity | repeat constructor] ..| reflexivity].
Defined.

(** A density matrix with one row too few for the overlap matrix. *)
Lemma derive_naturals_misaligned_witness :
  let dm := [[2; 0]]%float in
  let overlap := [[1; 0]; [0; 1]]%float in
  derive_naturals eigh_diag2 dm overlap = Raise ValueError ∧
  check_dm eigh_diag2 dm overlap (1 / 10000)%float 1%float = Raise ValueError.
Proof.
  apply (derive_naturals_misaligned eigh_diag2 1 2 2 2).
  - split; [reflexivity | repeat constructor].
  - split; [reflexivity | repeat constructor].
  - lia.
  - lia.
  - lia.
  - right. lia.
Defined.


(** Matrices of size 0, with a solver that returns nothing for them. *)
Lemma check_dm_no_occupations_witness :
  check_dm (λ _ _, Ok ([], [])) [] [] (1 / 10000)%float 1%float
    = Raise ValueError.
Proof.
  apply (check_dm_no_occupations (λ _ _, Ok ([], [])) [] [] _ _ []).
  reflexivity.
Defined.

(** The occupations 1 and 2 against the bounds [-1e-4] and [2 + 1e-4]. *)
Lemma check_dm_all_occupations_witness :
  let dm := [[2; 0]; [0; 1]]%float in
  let overlap := [[1; 0]; [0; 1]]%float in
  let eps := (1 / 10000)%float in
  let occ_max := 2%float in
  (check_dm eigh_diag2 dm overlap eps occ_max = Ok tt ↔
     Forall (occ_in_range eps occ_max) [1; 2]%float) ∧
  (check_dm eigh_diag2 dm overlap eps occ_max = Raise ValueError ↔
     ¬ Forall (occ_in_range eps occ_max) [1; 2]%float).
Proof.
  apply (check_dm_all_occupations eigh_diag2 _ _ _ _ [[0; 1]; [1; 0]]%float).
  - reflexivity.
  - discriminate.
  - split_and!.
    + intros x Hx. rewrite !elem_of_cons, elem_of_nil in Hx.
      repeat destruct Hx as [->|Hx]; try done; vm_compute; reflexivity.
    + intros x y Hx Hy.
      rewrite !elem_of_cons, elem_of_nil in Hx, Hy.
      repeat destruct Hx as [->|Hx]; try done;
        repeat destruct Hy as [->|Hy]; try done;
        vm_compute; congruence.
    + intros x y z Hx Hy Hz.
      rewrite !elem_of_cons, elem_of_nil in Hx, Hy, Hz.
      repeat destruct Hx as [->|Hx]; try done;
        repeat destruct Hy as [->|Hy]; try done;
        repeat destruct Hz as [->|Hz]; try done;
        vm_compute; congruence.
Defined.
